(** * qr_creator.py: rendering, file naming and output routing

    A shallow embedding of [src/qr_creator.py]: the text renderer
    [emit_text], the SVG style dispatch of [emit_svg], the file name
    sanitiser [sanitize_filename], the command-line surface declared in
    [main] and the choice of the output target made there.

    Python's [str] is a sequence of Unicode code points; it is modelled as
    a list of code points.  The [qrcode] package, the Unicode database
    behind [\w] and [\s], and [int()] are outside the repository and are
    taken as parameters. *)

From Stdlib Require Import String Ascii List NArith ZArith Bool Lia.
Import ListNotations.

(** ** Strings *)

Module Str.

(** A code point. *)
Definition char := N.

(** A Python [str]. *)
Definition str := list char.

Definition HYPHEN : char := 45%N.
Definition NEWLINE : char := 10%N.
Definition SPACE : char := 32%N.
Definition HASH : char := 35%N.
Definition UNDERSCORE : char := 95%N.
(** U+2588 FULL BLOCK. *)
Definition FULL_BLOCK : char := 9608%N.

(** An ASCII literal of the source as a [str]. *)
Definition lit (s : string) : str := map N_of_ascii (list_ascii_of_string s).

(** [a == b]. *)
Fixpoint eqb (a b : str) : bool :=
  match a, b with
  | [], [] => true
  | x :: a', y :: b' => N.eqb x y && eqb a' b'
  | _, _ => false
  end.

(** [sep.join(parts)]. *)
Fixpoint join (sep : str) (parts : list str) : str :=
  match parts with
  | [] => []
  | [p] => p
  | p :: rest => p ++ sep ++ join sep rest
  end.

(** [s.split(sep)] for a one-character separator: the pieces between
    the separators, one more than there are separators. *)
Fixpoint split (sep : char) (s : str) : list str :=
  match s with
  | [] => [[]]
  | c :: t =>
      if N.eqb c sep then [] :: split sep t
      else match split sep t with
           | [] => [[c]]
           | p :: ps => (c :: p) :: ps
           end
  end.

(** [s.splitlines()] for a text whose only line boundary is the
    newline character: a final newline ends the last line and opens
    no new one. *)
Definition splitlines (s : str) : list str :=
  match rev (split NEWLINE s) with
  | [] :: before => rev before
  | _ => split NEWLINE s
  end.

(** [s.lstrip(chars)], [s.rstrip(chars)] and [s.strip(chars)], the
    set [chars] given by its membership test. *)
Fixpoint lstrip (chars : char -> bool) (s : str) : str :=
  match s with
  | [] => []
  | c :: t => if chars c then lstrip chars t else s
  end.

Definition rstrip (chars : char -> bool) (s : str) : str :=
  rev (lstrip chars (rev s)).

Definition strip (chars : char -> bool) (s : str) : str :=
  rstrip chars (lstrip chars s).

(** [s[:n]]. *)
Definition prefix (n : nat) (s : str) : str := firstn n s.

End Str.

Import Str.

(** ** Regular expressions of the source

    The two patterns of [sanitize_filename] are a character class and a
    repeated character class; [re.sub] replaces the leftmost
    non-overlapping matches, and [+] is greedy, so a match of a repeated
    class is a maximal run. *)

Module Re.

(** The part of the Unicode database the [re] module consults for a
    [str] pattern, outside ASCII: [str.isalnum] and [str.isspace] of a
    code point from 128 on. *)
Class UnicodeData := {
  isalnum_hi : char -> bool;
  isspace_hi : char -> bool
}.

(** A database in which no code point outside ASCII is alphanumeric
    or white space. *)
Definition ascii_only : UnicodeData :=
  {| isalnum_hi := fun _ => false; isspace_hi := fun _ => false |}.

Definition between (lo hi c : char) : bool := (N.leb lo c && N.leb c hi)%bool.

(** [0-9A-Za-z]. *)
Definition ascii_isalnum (c : char) : bool :=
  (between 48%N 57%N c || between 65%N 90%N c || between 97%N 122%N c)%bool.

(** Tab to carriage return, the four separators 0x1C to 0x1F, space. *)
Definition ascii_isspace (c : char) : bool :=
  (between 9%N 13%N c || between 28%N 32%N c)%bool.

Section Classes.
Context {U : UnicodeData}.

Definition isalnum (c : char) : bool :=
  if N.ltb c 128%N then ascii_isalnum c else isalnum_hi c.

Definition isspace (c : char) : bool :=
  if N.ltb c 128%N then ascii_isspace c else isspace_hi c.

(** [\w]: alphanumeric or the underscore. *)
Definition word (c : char) : bool := (isalnum c || N.eqb c UNDERSCORE)%bool.

(** [\s]. *)
Definition space (c : char) : bool := isspace c.
End Classes.

(** [re.sub('[cls]', repl, s)]. *)
Fixpoint sub_class (cls : char -> bool) (repl : str) (s : str) : str :=
  match s with
  | [] => []
  | c :: t =>
      if cls c then repl ++ sub_class cls repl t
      else c :: sub_class cls repl t
  end.

(** [re.sub('[cls]+', repl, s)]; [in_run] says that the character
    before [s] belongs to the run being replaced. *)
Fixpoint sub_runs_from (cls : char -> bool) (repl : str) (in_run : bool)
    (s : str) : str :=
  match s with
  | [] => []
  | c :: t =>
      if cls c then
        (if in_run then [] else repl) ++ sub_runs_from cls repl true t
      else c :: sub_runs_from cls repl false t
  end.

Definition sub_runs (cls : char -> bool) (repl : str) (s : str) : str :=
  sub_runs_from cls repl false s.

End Re.

Import Re.

(** ** [sanitize_filename] *)

Section Sanitize.
Context {U : UnicodeData}.

Definition is_hyphen (c : char) : bool := N.eqb c HYPHEN.

(** The class [[^\w\s-]]. *)
Definition unsafe_char (c : char) : bool :=
  negb (word c || space c || is_hyphen c).

(** The class [[-\s]]. *)
Definition hyphen_or_space (c : char) : bool := (is_hyphen c || space c)%bool.

Definition sanitize_filename (text : str) : str :=
  let filename := sub_class unsafe_char [] text in
  let filename := sub_runs hyphen_or_space (lit "-") filename in
  let filename := strip is_hyphen filename in
  match filename with
  | [] => lit "qrcode"
  | _ => prefix 50 filename
  end.

End Sanitize.

(** ** Errors *)

(** The exceptions the modelled code can end with: a dictionary lookup
    that misses, the exit [argparse] takes on a rejected command line,
    and whatever the [qrcode] package raises. *)
Inductive exn : Type :=
| KeyError (key : str)
| SystemExit (code : Z)
| LibraryError (tag : N).

Definition Result (A : Type) : Type := (exn + A)%type.

Definition ret {A} (a : A) : Result A := inr a.
Definition raise {A} (e : exn) : Result A := inl e.

Definition bind {A B} (r : Result A) (k : A -> Result B) : Result B :=
  match r with
  | inl e => inl e
  | inr a => k a
  end.

Notation "x <- r ;; k" := (bind r (fun x => k))
  (at level 61, r at next level, right associativity).

(** ** The [qrcode] package *)

Inductive ErrorCorrection : Type :=
| ERROR_CORRECT_L
| ERROR_CORRECT_M
| ERROR_CORRECT_Q
| ERROR_CORRECT_H.

Inductive ImageFactory : Type :=
| SvgImage
| SvgPathImage
| SvgFragmentImage.

(** A module matrix: [list[list[bool]]], border included. *)
Definition Matrix := list (list bool).

Definition bytes := list N.

(** What the program asks of the package.  [new_qr ec box_size border data]
    is [QRCode(version=None, ...)], [add_data(data)] and [make(fit=True)];
    [svg_image qr factory] is [make_image(image_factory=factory)] saved and
    decoded; [png_image qr fill back] is [make_image(fill_color=fill,
    back_color=back)] saved as PNG. *)
Class QRCodeLib := {
  QRCode : Type;
  new_qr : ErrorCorrection -> Z -> Z -> str -> Result QRCode;
  get_matrix : QRCode -> Matrix;
  svg_image : QRCode -> ImageFactory -> Result str;
  png_image : QRCode -> str -> str -> Result bytes
}.

(** Python's [int(s)]; [None] stands for [ValueError]. *)
Class PyInt := { int : str -> option Z }.

Definition EC_LEVELS : list (str * ErrorCorrection) :=
  [ (lit "L", ERROR_CORRECT_L);
    (lit "M", ERROR_CORRECT_M);
    (lit "Q", ERROR_CORRECT_Q);
    (lit "H", ERROR_CORRECT_H) ].

(** [d[key]] of a dictionary given by its items. *)
Fixpoint getitem {V} (d : list (str * V)) (key : str) : Result V :=
  match d with
  | [] => raise (KeyError key)
  | (k, v) :: rest => if Str.eqb k key then ret v else getitem rest key
  end.

(** [list(d.keys())]. *)
Definition keys {V} (d : list (str * V)) : list str := map fst d.

(** [x in l] for a list of strings. *)
Definition contains (l : list str) (x : str) : bool := existsb (Str.eqb x) l.

(** ** Building and rendering *)

Section Rendering.
Context {Q : QRCodeLib}.

Definition build_qr (data level : str) (box_size border : Z) : Result QRCode :=
  ec <- getitem EC_LEVELS level ;;
  new_qr ec box_size border data.

(** [emit_text]; [m] is [qr.get_matrix()]. *)
Definition emit_text (m : Matrix) (use_unicode : bool) : str :=
  let lines :=
    if use_unicode then
      let black := [FULL_BLOCK] in
      let white := lit " " in
      map (fun row => join [] (map (fun cell : bool => if cell then black else white) row)) m
    else
      let black := lit "##" in
      let white := lit "  " in
      map (fun row => join [] (map (fun cell : bool => if cell then black else white) row)) m
  in
  join [NEWLINE] lines ++ [NEWLINE].

Definition emit_png (qr : QRCode) : Result bytes :=
  png_image qr (lit "black") (lit "white").

Definition emit_svg (qr : QRCode) (style : str) : Result str :=
  let factory :=
    if Str.eqb style (lit "rect") then SvgImage
    else if Str.eqb style (lit "frag") then SvgFragmentImage
    else SvgPathImage
  in
  svg_image qr factory.

End Rendering.

(** ** The command line *)

(** What [parse_args] returns: the attributes of [args]. *)
Module Args.
Record t : Type := mk {
  input : str;
  to_png : bool;
  to_svg : bool;
  out : option str;
  level : str;
  box_size : Z;
  border : Z;
  ascii : bool;
  svg_style : str
}.
End Args.

(** A command line as [argparse] reads it: for each declared option, the
    value given to it, if it was given, and for each flag, whether it was
    given.  How the tokens of [argv] are matched to the options is
    [argparse]'s business. *)
Record CommandLine : Type := {
  cl_input : option str;
  cl_to_png : bool;
  cl_to_svg : bool;
  cl_out : option str;
  cl_level : option str;
  cl_box_size : option str;
  cl_border : option str;
  cl_ascii : bool;
  cl_svg_style : option str
}.

(** [parser.error]: usage on the error stream and exit status 2. *)
Definition parser_error {A} : Result A := raise (SystemExit 2).

(** An option with [choices] and a [default]. *)
Definition choice (choices : list str) (default : str) (given : option str)
    : Result str :=
  match given with
  | None => ret default
  | Some v => if contains choices v then ret v else parser_error
  end.

(** An option with [type=int] and a [default]. *)
Definition int_option {P : PyInt} (default : Z) (given : option str) : Result Z :=
  match given with
  | None => ret default
  | Some v => match int v with
              | Some n => ret n
              | None => parser_error
              end
  end.

Definition svg_styles : list str := [lit "path"; lit "rect"; lit "frag"].

(** The parser [main] declares, applied to a command line. *)
Definition parse_args {P : PyInt} (cl : CommandLine) : Result Args.t :=
  match cl_input cl with
  | None => parser_error
  | Some input =>
      if (cl_to_png cl && cl_to_svg cl)%bool then parser_error
      else
        level <- choice (keys EC_LEVELS) (lit "M") (cl_level cl) ;;
        box_size <- int_option 10 (cl_box_size cl) ;;
        border <- int_option 4 (cl_border cl) ;;
        svg_style <- choice svg_styles (lit "path") (cl_svg_style cl) ;;
        ret (Args.mk input (cl_to_png cl) (cl_to_svg cl) (cl_out cl) level
                     box_size border (cl_ascii cl) svg_style)
  end.

(** ** The output target and [main] *)

(** What [main] does with the payload: the one write it performs. *)
Inductive Effect : Type :=
| FileBytes (path : str) (payload : bytes)
| FileText (path : str) (payload : str)
| StdoutBytes (payload : bytes)
| StdoutText (payload : str).

(** The truth value of [args.out]: [None] and the empty string are false. *)
Definition truthy (o : option str) : bool :=
  match o with
  | Some (_ :: _) => true
  | _ => false
  end.

Definition value (o : option str) : str :=
  match o with
  | Some s => s
  | None => []
  end.

Section Main.
Context {U : UnicodeData} {Q : QRCodeLib} {P : PyInt}.

(** The pair [(output_file, to_file)] that [main] computes. *)
Definition output_target (args : Args.t) : str * bool :=
  if truthy (Args.out args) then
    let output_file := value (Args.out args) in
    (output_file, negb (Str.eqb output_file (lit "-")))
  else if (Args.to_png args || Args.to_svg args)%bool then
    let base_name := sanitize_filename (Args.input args) in
    let extension := if Args.to_png args then lit ".png" else lit ".svg" in
    (base_name ++ extension, true)
  else
    (lit "-", false).

(** [main], from the parsed command line to the write and the status
    it returns. *)
Definition main (cl : CommandLine) : Result (Effect * Z) :=
  args <- parse_args cl ;;
  qr <- build_qr (Args.input args) (Args.level args) (Args.box_size args)
                 (Args.border args) ;;
  let '(output_file, to_file) := output_target args in
  if Args.to_png args then
    payload <- emit_png qr ;;
    ret (if to_file then FileBytes output_file payload
         else StdoutBytes payload, 0%Z)
  else if Args.to_svg args then
    svg <- emit_svg qr (Args.svg_style args) ;;
    ret (if to_file then FileText output_file svg else StdoutText svg, 0%Z)
  else
    let text := emit_text (get_matrix qr) (negb (Args.ascii args)) in
    ret (if to_file then FileText output_file text else StdoutText text, 0%Z).

End Main.

(** ** The vocabulary of the specification *)

Inductive Format : Type := Text | Raster | Vector.

(** The format [main] renders: it tests [to_png], then [to_svg]. *)
Definition format_of (args : Args.t) : Format :=
  if Args.to_png args then Raster
  else if Args.to_svg args then Vector
  else Text.

Inductive Target : Type :=
| Stream
| File (path : str).

(** The resolved output target: where [main] writes. *)
Definition resolve_target {U : UnicodeData} (args : Args.t) : Target :=
  let '(output_file, to_file) := output_target args in
  if to_file then File output_file else Stream.

(** The glyph [emit_text] writes for one module. *)
Definition cell (use_unicode : bool) (dark : bool) : str :=
  if use_unicode then (if dark then [FULL_BLOCK] else lit " ")
  else (if dark then lit "##" else lit "  ").

(** The line [emit_text] writes for one row. *)
Definition line (use_unicode : bool) (row : list bool) : str :=
  concat (map (cell use_unicode) row).

(** Characters per module: one in unicode mode, two in ASCII mode. *)
Definition cell_width (use_unicode : bool) : nat :=
  if use_unicode then 1 else 2.

(** A matrix with as many columns in every row as it has rows. *)
Definition square (m : Matrix) : Prop :=
  Forall (fun row => length row = length m) m.

(** What the ASCII renderer writes in place of a character of the
    unicode rendering. *)
Definition widen (c : char) : str :=
  if N.eqb c FULL_BLOCK then lit "##"
  else if N.eqb c SPACE then lit "  "
  else [c].

(** No two hyphens side by side. *)
Fixpoint single_hyphens (s : str) : bool :=
  match s with
  | c :: ((d :: _) as t) => negb (is_hyphen c && is_hyphen d) && single_hyphens t
  | _ => true
  end.

(** Only word characters and hyphens. *)
Definition word_or_hyphen {U : UnicodeData} (s : str) : bool :=
  forallb (fun c => word c || is_hyphen c)%bool s.

Definition starts_with_hyphen (s : str) : bool :=
  match s with
  | c :: _ => is_hyphen c
  | [] => false
  end.

Definition ends_with_hyphen (s : str) : bool := starts_with_hyphen (rev s).

(** The grid the specification describes: as many lines as rows, every
    line twice as long as the matrix is wide. *)
Definition two_column_grid (m : Matrix) (use_unicode : bool) : Prop :=
  length (splitlines (emit_text m use_unicode)) = length m /\
  Forall (fun l => length l = 2 * length m) (splitlines (emit_text m use_unicode)).

(** The shape [sanitize_filename] aims at: word characters (none of
    them white space) and hyphens only, no two hyphens side by side, and,
    when [after_hyphen] is set, no hyphen in front. *)
Fixpoint tidy {U : UnicodeData} (after_hyphen : bool) (s : str) : bool :=
  match s with
  | [] => true
  | c :: t =>
      if hyphen_or_space c then is_hyphen c && negb after_hyphen && tidy true t
      else word c && tidy false t
  end.

(** An input on which truncation cuts right behind a hyphen: 49 letters
    [a], a hyphen and an [x]. *)
Definition cut_at_hyphen : str := repeat 97%N 49 ++ lit "-x".

(** C1 as the specification states it: an explicit path other than the
    sentinel is the file written; the sentinel is the stream; without an
    explicit path the format decides. *)
Definition three_step_policy {U : UnicodeData} (args : Args.t) : Prop :=
  (forall p, Args.out args = Some p -> p <> lit "-" ->
             resolve_target args = File p) /\
  (Args.out args = Some (lit "-") -> resolve_target args = Stream) /\
  (Args.out args = None ->
   resolve_target args =
   match format_of args with
   | Raster => File (sanitize_filename (Args.input args) ++ lit ".png")
   | Vector => File (sanitize_filename (Args.input args) ++ lit ".svg")
   | Text => Stream
   end).

(** C10 as the specification states it: two invocations with the same
    explicit path and the same format have the same target. *)
Definition explicit_path_decides {U : UnicodeData} (a b : Args.t) : Prop :=
  Args.out a <> None -> Args.out a = Args.out b ->
  format_of a = format_of b ->
  resolve_target a = resolve_target b.

(** C5 as the specification states it: a style that is not one of the
    three makes [emit_svg] fail. *)
Definition unknown_style_raises {Q : QRCodeLib} (qr : QRCode) (style : str)
    : Prop :=
  ~ In style svg_styles -> exists e, emit_svg qr style = raise e.

(** A stand-in for the package, for running the model: a code is its
    matrix, the SVG text is the name of the factory asked for, and
    nothing fails. *)
Definition plain_lib : QRCodeLib := {|
  QRCode := Matrix;
  new_qr := fun _ _ _ _ => ret [[true]];
  get_matrix := fun m => m;
  svg_image := fun _ factory =>
    ret (match factory with
         | SvgImage => lit "SvgImage"
         | SvgPathImage => lit "SvgPathImage"
         | SvgFragmentImage => lit "SvgFragmentImage"
         end);
  png_image := fun _ _ _ => ret []
|}.

(** A stand-in for [int] that accepts nothing. *)
Definition no_int : PyInt := {| int := fun _ => None |}.

(** The command line [--input text]. *)
Definition bare (text : str) : CommandLine := {|
  cl_input := Some text;
  cl_to_png := false;
  cl_to_svg := false;
  cl_out := None;
  cl_level := None;
  cl_box_size := None;
  cl_border := None;
  cl_ascii := false;
  cl_svg_style := None
|}.

(** What the parser returns for [--input text], with the format flags
    and [--out] as given. *)
Definition args_of (text : str) (to_png to_svg : bool) (out : option str)
    : Args.t :=
  Args.mk text to_png to_svg out (lit "M") 10%Z 4%Z false (lit "path").

(** ** Further vocabulary *)

(** A character [sanitize_filename] keeps as it is: a word character
    that is neither a hyphen nor white space. *)
Definition kept {U : UnicodeData} (c : char) : bool :=
  (word c && negb (hyphen_or_space c))%bool.

(** A name [sanitize_filename] has nothing to do on: between 1 and 50
    characters, each a hyphen or a word character that is no white
    space, no two hyphens side by side, no hyphen in front or at the
    end. *)
Definition clean_name {U : UnicodeData} (s : str) : bool :=
  (negb (starts_with_hyphen s) && negb (ends_with_hyphen s) &&
   single_hyphens s &&
   forallb (fun c => is_hyphen c || (word c && negb (space c))) s &&
   (1 <=? length s) && (length s <=? 50))%bool.

(** The row a line of the text rendering stands for: one character per
    module in unicode mode, two in ASCII mode. *)
Fixpoint unline (use_unicode : bool) (l : str) : list bool :=
  match l with
  | [] => []
  | c :: t =>
      if use_unicode then N.eqb c FULL_BLOCK :: unline use_unicode t
      else match t with
           | [] => [N.eqb c HASH]
           | _ :: t' => N.eqb c HASH :: unline use_unicode t'
           end
  end.

(** Where a write goes, and whether it writes bytes. *)
Definition destination (w : Effect) : Target :=
  match w with
  | FileBytes path _ | FileText path _ => File path
  | StdoutBytes _ | StdoutText _ => Stream
  end.

Definition binary (w : Effect) : bool :=
  match w with
  | FileBytes _ _ | StdoutBytes _ => true
  | FileText _ _ | StdoutText _ => false
  end.


(** An option left out, or given one of its [choices]. *)
Definition given_in (choices : list str) (given : option str) : bool :=
  match given with
  | None => true
  | Some v => contains choices v
  end.

(** An option left out, or given a value [int] converts. *)
Definition given_int {P : PyInt} (given : option str) : bool :=
  match given with
  | None => true
  | Some v => match int v with Some _ => true | None => false end
  end.

(** The command lines the declared parser accepts. *)
Definition acceptable {P : PyInt} (cl : CommandLine) : bool :=
  (match cl_input cl with Some _ => true | None => false end &&
   negb (cl_to_png cl && cl_to_svg cl) &&
   given_in (keys EC_LEVELS) (cl_level cl) &&
   given_int (cl_box_size cl) && given_int (cl_border cl) &&
   given_in svg_styles (cl_svg_style cl))%bool.

(** A stand-in for [int] that reads a run of ASCII digits. *)
Definition digits_int : PyInt := {|
  int := fun s =>
    match s with
    | [] => None
    | _ => fold_left
             (fun acc c =>
                match acc with
                | Some n => if between 48%N 57%N c
                            then Some (10 * n + Z.of_N (c - 48))%Z
                            else None
                | None => None
                end) s (Some 0%Z)
    end
|}.

(** The namespace an accepted command line is parsed to: each option
    with the value given to it, or with its default. *)
Definition namespace_of {P : PyInt} (cl : CommandLine) : Args.t :=
  Args.mk
    (value (cl_input cl)) (cl_to_png cl) (cl_to_svg cl) (cl_out cl)
    (match cl_level cl with Some v => v | None => lit "M" end)
    (match cl_box_size cl with
     | Some v => match int v with Some n => n | None => 10%Z end
     | None => 10%Z
     end)
    (match cl_border cl with
     | Some v => match int v with Some n => n | None => 4%Z end
     | None => 4%Z
     end)
    (cl_ascii cl)
    (match cl_svg_style cl with Some v => v | None => lit "path" end).

(** The command line [--input text --to-svg --level Q --box-size 12]. *)
Definition svg_at_q (text : str) : CommandLine := {|
  cl_input := Some text;
  cl_to_png := false;
  cl_to_svg := true;
  cl_out := None;
  cl_level := Some (lit "Q");
  cl_box_size := Some (lit "12");
  cl_border := None;
  cl_ascii := false;
  cl_svg_style := None
|}.

(** * Properties *)

(** ** Strings *)

Lemma str_eqb_eq (a b : str) : Str.eqb a b = true <-> a = b.
Proof.
  revert b; induction a as [|x a IH]; intros [|y b]; simpl;
    try (split; (reflexivity || discriminate)).
  rewrite andb_true_iff, N.eqb_eq, IH.
  split; [intros [-> ->]; reflexivity | intros [= -> ->]; auto].
Qed.

Lemma str_eqb_refl (a : str) : Str.eqb a a = true.
Proof. now apply str_eqb_eq. Qed.

Lemma str_eqb_neq (a b : str) : Str.eqb a b = false <-> a <> b.
Proof.
  rewrite <- str_eqb_eq. destruct (Str.eqb a b); split; congruence.
Qed.

Lemma join_empty_sep (parts : list str) : join [] parts = concat parts.
Proof.
  induction parts as [|p [|q rest] IH]; simpl in *.
  - reflexivity.
  - now rewrite app_nil_r.
  - now rewrite IH.
Qed.

(** Joining and terminating is the same as terminating every part,
    unless there is no part at all. *)
Lemma join_terminated (sep : str) (p : str) (rest : list str) :
  join sep (p :: rest) ++ sep = concat (map (fun q => q ++ sep) (p :: rest)).
Proof.
  revert p; induction rest as [|q rest IH]; intro p.
  - simpl. now rewrite app_nil_r.
  - change (join sep (p :: q :: rest)) with (p ++ sep ++ join sep (q :: rest)).
    rewrite <- !app_assoc, IH. simpl. now rewrite <- !app_assoc.
Qed.

Lemma split_nonempty (sep : char) (s : str) : split sep s <> [].
Proof.
  destruct s as [|c t]; simpl; [discriminate|].
  destruct (N.eqb c sep); [discriminate|].
  destruct (split sep t); discriminate.
Qed.

(** A piece free of the separator comes out whole. *)
Lemma split_piece (sep : char) (p s : str) :
  Forall (fun c => c <> sep) p ->
  split sep (p ++ sep :: s) = p :: split sep s.
Proof.
  induction 1 as [|c p Hc _ IH]; simpl.
  - now rewrite N.eqb_refl.
  - apply N.eqb_neq in Hc. rewrite Hc, IH. reflexivity.
Qed.

Lemma split_terminated (sep : char) (parts : list str) :
  Forall (Forall (fun c => c <> sep)) parts ->
  split sep (concat (map (fun q => q ++ [sep]) parts)) = parts ++ [[]].
Proof.
  induction 1 as [|p parts Hp _ IH]; simpl.
  - reflexivity.
  - rewrite <- app_assoc. simpl. rewrite split_piece by assumption.
    now rewrite IH.
Qed.

Lemma splitlines_terminated (parts : list str) :
  Forall (Forall (fun c => c <> NEWLINE)) parts ->
  splitlines (concat (map (fun q => q ++ [NEWLINE]) parts)) = parts.
Proof.
  intro H. unfold splitlines. rewrite split_terminated by assumption.
  rewrite rev_app_distr. simpl. apply rev_involutive.
Qed.

(** ** The text renderer *)

Lemma emit_text_lines (m : Matrix) (use_unicode : bool) :
  emit_text m use_unicode = join [NEWLINE] (map (line use_unicode) m) ++ [NEWLINE].
Proof.
  unfold emit_text, line, cell.
  destruct use_unicode; do 2 f_equal; apply map_ext; intro row;
    apply join_empty_sep.
Qed.

Lemma emit_text_rows (use_unicode : bool) (row : list bool) (rest : Matrix) :
  emit_text (row :: rest) use_unicode =
  concat (map (fun q => q ++ [NEWLINE]) (map (line use_unicode) (row :: rest))).
Proof.
  rewrite emit_text_lines. simpl map at 1. apply join_terminated.
Qed.

Lemma cell_length (use_unicode dark : bool) :
  length (cell use_unicode dark) = cell_width use_unicode.
Proof. destruct use_unicode, dark; reflexivity. Qed.

Lemma cell_no_newline (use_unicode dark : bool) :
  Forall (fun c => c <> NEWLINE) (cell use_unicode dark).
Proof.
  destruct use_unicode, dark; repeat constructor; discriminate.
Qed.

Lemma line_length (use_unicode : bool) (row : list bool) :
  length (line use_unicode row) = cell_width use_unicode * length row.
Proof.
  unfold line. induction row as [|b row IH]; simpl.
  - now rewrite Nat.mul_0_r.
  - rewrite length_app, cell_length, IH. lia.
Qed.

Lemma line_no_newline (use_unicode : bool) (row : list bool) :
  Forall (fun c => c <> NEWLINE) (line use_unicode row).
Proof.
  unfold line. induction row as [|b row IH]; simpl.
  - constructor.
  - apply Forall_app. split; [apply cell_no_newline | exact IH].
Qed.

Lemma lines_no_newline (use_unicode : bool) (m : Matrix) :
  Forall (Forall (fun c => c <> NEWLINE)) (map (line use_unicode) m).
Proof.
  apply Forall_map, Forall_forall. intros row _. apply line_no_newline.
Qed.

(** The lines of the output are the rendered rows; with no row at all
    the output is still one (empty) line. *)
Lemma splitlines_emit_text (m : Matrix) (use_unicode : bool) :
  splitlines (emit_text m use_unicode) =
  match m with
  | [] => [[]]
  | _ => map (line use_unicode) m
  end.
Proof.
  destruct m as [|row rest].
  - now destruct use_unicode.
  - rewrite emit_text_rows. apply splitlines_terminated, lines_no_newline.
Qed.

(** C4, as stated, fails: in unicode mode a module is one character, so
    the line of a one-module matrix has length 1 and not 2; and the
    output for a matrix without rows is one empty line, not zero lines. *)
Lemma two_column_grid_fails :
  ~ two_column_grid [[true]] true /\ ~ two_column_grid [] false.
Proof.
  split; intros [Hcount Hlen].
  - vm_compute in Hlen. inversion Hlen as [|? ? Hl _]. discriminate Hl.
  - vm_compute in Hcount. discriminate Hcount.
Qed.

(** C4, amended: for a square matrix with at least one row, the output
    has as many lines as the matrix has rows, and every line has the same
    length: the side of the matrix in unicode mode (one character per
    module), twice the side in ASCII mode (two characters per module). *)
Theorem emit_text_grid (m : Matrix) (use_unicode : bool) :
  m <> [] -> square m ->
  length (splitlines (emit_text m use_unicode)) = length m /\
  Forall (fun l => length l = cell_width use_unicode * length m)
         (splitlines (emit_text m use_unicode)).
Proof.
  intros Hne Hsq. rewrite splitlines_emit_text.
  destruct m as [|row rest]; [congruence|].
  split.
  - apply length_map.
  - apply Forall_map. unfold square in Hsq.
    eapply Forall_impl; [|exact Hsq].
    intros r Hr. simpl in Hr. rewrite line_length, Hr. reflexivity.
Qed.

Lemma emit_text_grid_witness :
  let m := [[true; false]; [false; true]] in
  length (splitlines (emit_text m true)) = 2 /\
  Forall (fun l => length l = 2) (splitlines (emit_text m true)).
Proof.
  apply (emit_text_grid [[true; false]; [false; true]] true).
  - discriminate.
  - repeat constructor.
Defined.

Lemma cell_last (use_unicode dark : bool) :
  exists q c, cell use_unicode dark = q ++ [c] /\ c <> NEWLINE.
Proof.
  destruct use_unicode, dark.
  - exists [], FULL_BLOCK. split; [reflexivity | discriminate].
  - exists [], SPACE. split; [reflexivity | discriminate].
  - exists [HASH], HASH. split; [reflexivity | discriminate].
  - exists [SPACE], SPACE. split; [reflexivity | discriminate].
Qed.

Lemma line_last (use_unicode : bool) (row : list bool) :
  row <> [] -> exists q c, line use_unicode row = q ++ [c] /\ c <> NEWLINE.
Proof.
  intro Hne. destruct (exists_last Hne) as (init & dark & ->).
  destruct (cell_last use_unicode dark) as (q & c & Hq & Hc).
  exists (line use_unicode init ++ q), c. split; [|exact Hc].
  unfold line. rewrite map_app, concat_app. cbn [map concat].
  now rewrite app_nil_r, Hq, app_assoc.
Qed.

(** C7: the rows are joined by single newlines and the output ends with
    one more newline: every rendered row is followed by exactly one
    newline, so that splitting the output at the newlines gives back the
    rendered rows and one empty piece after the last newline; and when
    the last row has a module, the output ends in a glyph and one
    newline.  For the matrix without rows the output is a single
    newline. *)
Theorem emit_text_newlines (use_unicode : bool) :
  emit_text [] use_unicode = [NEWLINE] /\
  forall (row : list bool) (rest : Matrix),
    let m := row :: rest in
    emit_text m use_unicode =
      join [NEWLINE] (map (line use_unicode) m) ++ [NEWLINE] /\
    emit_text m use_unicode =
      concat (map (fun r => line use_unicode r ++ [NEWLINE]) m) /\
    split NEWLINE (emit_text m use_unicode) = map (line use_unicode) m ++ [[]] /\
    (last m [] <> [] ->
     exists before glyph,
       emit_text m use_unicode = before ++ [glyph; NEWLINE] /\
       glyph <> NEWLINE).
Proof.
  split; [now destruct use_unicode|].
  intros row rest m. split; [apply emit_text_lines|]. split; [|split].
  - unfold m. rewrite emit_text_rows, map_map. reflexivity.
  - unfold m. rewrite emit_text_rows.
    apply split_terminated, lines_no_newline.
  - intro Hlast. unfold m in *. rewrite emit_text_rows, map_map.
    assert (Hne : row :: rest <> []) by discriminate.
    rewrite (app_removelast_last [] Hne), map_app, concat_app.
    cbn [map concat].
    destruct (line_last use_unicode _ Hlast) as (q & c & -> & Hc).
    exists (concat (map (fun r => line use_unicode r ++ [NEWLINE])
                        (removelast (row :: rest))) ++ q), c.
    split; [|exact Hc].
    now rewrite app_nil_r, <- !app_assoc.
Qed.

Lemma emit_text_newlines_witness :
  emit_text [[true; false]] true = [FULL_BLOCK; SPACE; NEWLINE] /\
  exists before glyph,
    emit_text [[true; false]] true = before ++ [glyph; NEWLINE] /\
    glyph <> NEWLINE.
Proof.
  destruct (proj2 (emit_text_newlines true) [true; false] []) as (_ & E & _ & H).
  split; [exact E | apply H; discriminate].
Defined.

Lemma widen_cell (dark : bool) : flat_map widen (cell true dark) = cell false dark.
Proof. now destruct dark. Qed.

Lemma widen_line (row : list bool) :
  flat_map widen (line true row) = line false row.
Proof.
  unfold line. induction row as [|b row IH]; cbn [map concat].
  - reflexivity.
  - now rewrite flat_map_app, widen_cell, IH.
Qed.

(** C9: the ASCII rendering is the unicode rendering with every full
    block replaced by two hash signs and every space by two spaces (the
    newlines stay), and every line of it is twice as long as the same
    line of the unicode rendering. *)
Theorem ascii_widens_unicode (m : Matrix) :
  emit_text m false = flat_map widen (emit_text m true) /\
  map (@length char) (splitlines (emit_text m false)) =
  map (fun l => 2 * length l) (splitlines (emit_text m true)).
Proof.
  split.
  - destruct m as [|row rest]; [reflexivity|].
    rewrite !emit_text_rows.
    induction (row :: rest) as [|r rs IH]; cbn [map concat].
    + reflexivity.
    + now rewrite !flat_map_app, widen_line, IH.
  - rewrite !splitlines_emit_text.
    destruct m as [|row rest]; [reflexivity|].
    rewrite !map_map. apply map_ext. intro r.
    rewrite !line_length. simpl. lia.
Qed.

(** ** The file name sanitiser *)

Section SanitizeFacts.
Context {U : UnicodeData}.

Lemma is_hyphen_eq (c : char) : is_hyphen c = true <-> c = HYPHEN.
Proof. apply N.eqb_eq. Qed.

Lemma sub_class_delete (cls : char -> bool) (s : str) :
  sub_class cls [] s = filter (fun c => negb (cls c)) s.
Proof.
  induction s as [|c t IH]; simpl; [reflexivity|].
  destruct (cls c); simpl; now rewrite IH.
Qed.

Lemma sub_class_safe (s : str) :
  Forall (fun c => unsafe_char c = false) (sub_class unsafe_char [] s).
Proof.
  rewrite sub_class_delete. apply Forall_forall. intros c Hc.
  apply filter_In in Hc. destruct Hc as [_ Hc].
  now apply negb_true_iff in Hc.
Qed.

Lemma sub_class_length (cls : char -> bool) (s : str) :
  length (sub_class cls [] s) <= length s.
Proof. rewrite sub_class_delete. apply filter_length_le. Qed.

Lemma sub_runs_length (cls : char -> bool) (c : char) (b : bool) (s : str) :
  length (sub_runs_from cls [c] b s) <= length s.
Proof.
  revert b; induction s as [|d t IH]; intro b; simpl; [lia|].
  destruct (cls d).
  - specialize (IH true). destruct b; simpl; lia.
  - specialize (IH false). simpl. lia.
Qed.

(** A run of matching characters collapses to one replacement. *)
Lemma sub_runs_all (cls : char -> bool) (repl : str) (b : bool) (s : str) :
  Forall (fun c => cls c = true) s ->
  sub_runs_from cls repl b s =
  if b then [] else match s with [] => [] | _ => repl end.
Proof.
  intro H. revert b. induction H as [|c t Hc _ IH]; intro b; simpl.
  - now destruct b.
  - rewrite Hc, (IH true). destruct b; simpl; [reflexivity | apply app_nil_r].
Qed.

Lemma sub_runs_tidy (b : bool) (s : str) :
  Forall (fun c => unsafe_char c = false) s ->
  tidy b (sub_runs_from hyphen_or_space (lit "-") b s) = true.
Proof.
  intro H. revert b. induction H as [|c t Hc _ IH]; intro b; simpl.
  - reflexivity.
  - destruct (hyphen_or_space c) eqn:Hcls.
    + destruct b; simpl; [apply IH|]. apply IH.
    + simpl. rewrite Hcls, IH, andb_true_r.
      unfold unsafe_char in Hc. apply negb_false_iff in Hc.
      unfold hyphen_or_space in Hcls. apply orb_false_iff in Hcls.
      destruct Hcls as [Hh Hs]. rewrite Hh, Hs, !orb_false_r in Hc. exact Hc.
Qed.

Lemma tidy_weaken (b : bool) (s : str) : tidy b s = true -> tidy false s = true.
Proof.
  destruct s as [|c t]; simpl; [reflexivity|].
  destruct (hyphen_or_space c); [|tauto].
  rewrite !andb_true_iff. intros [[H1 _] H2]. auto.
Qed.

Lemma tidy_tail (b : bool) (c : char) (t : str) :
  tidy b (c :: t) = true -> tidy false t = true.
Proof.
  simpl. destruct (hyphen_or_space c); rewrite !andb_true_iff.
  - intros [_ H]. exact (tidy_weaken _ _ H).
  - tauto.
Qed.

Lemma tidy_app_r (b : bool) (p t : str) :
  tidy b (p ++ t) = true -> tidy false t = true.
Proof.
  revert b; induction p as [|c p IH]; intros b H.
  - exact (tidy_weaken _ _ H).
  - exact (IH _ (tidy_tail _ _ _ H)).
Qed.

Lemma tidy_app_l (b : bool) (p t : str) :
  tidy b (p ++ t) = true -> tidy b p = true.
Proof.
  revert b; induction p as [|c p IH]; intros b; simpl; [reflexivity|].
  destruct (hyphen_or_space c); rewrite !andb_true_iff.
  - intros [H1 H2]. split; [exact H1 | exact (IH _ H2)].
  - intros [H1 H2]. split; [exact H1 | exact (IH _ H2)].
Qed.

Lemma tidy_no_leading (s : str) :
  tidy false s = true -> starts_with_hyphen s = false -> tidy true s = true.
Proof.
  destruct s as [|c t]; simpl; [reflexivity|].
  destruct (hyphen_or_space c); [|tauto].
  intros H Hc. rewrite Hc in H. discriminate H.
Qed.

Lemma tidy_leading (s : str) : tidy true s = true -> starts_with_hyphen s = false.
Proof.
  destruct s as [|c t]; simpl; [reflexivity|].
  destruct (hyphen_or_space c) eqn:Hcls.
  - rewrite andb_false_r. discriminate.
  - intros _. unfold hyphen_or_space in Hcls.
    now apply orb_false_iff in Hcls.
Qed.

Lemma tidy_word_or_hyphen (b : bool) (s : str) :
  tidy b s = true -> word_or_hyphen s = true.
Proof.
  revert b; induction s as [|c t IH]; intro b; simpl; [reflexivity|].
  destruct (hyphen_or_space c); rewrite !andb_true_iff.
  - intros [[Hc _] Ht]. rewrite Hc, orb_true_r. eauto.
  - intros [Hc Ht]. rewrite Hc. eauto.
Qed.

Lemma tidy_single_hyphens (b : bool) (s : str) :
  tidy b s = true -> single_hyphens s = true.
Proof.
  revert b; induction s as [|c t IH]; intros b H; [reflexivity|].
  destruct t as [|d t']; [reflexivity|].
  change (negb (is_hyphen c && is_hyphen d) && single_hyphens (d :: t') = true).
  rewrite (IH _ (tidy_tail _ _ _ H)), andb_true_r.
  simpl in H. unfold hyphen_or_space in H.
  destruct (is_hyphen c); [|reflexivity].
  destruct (is_hyphen d); [|reflexivity].
  simpl in H. rewrite !andb_false_r in H. discriminate H.
Qed.

Lemma tidy_sub_class (b : bool) (s : str) :
  tidy b s = true -> sub_class unsafe_char [] s = s.
Proof.
  revert b; induction s as [|c t IH]; intro b; simpl; [reflexivity|].
  unfold unsafe_char, hyphen_or_space.
  destruct (is_hyphen c) eqn:Hh; simpl.
  - rewrite orb_true_r. simpl. rewrite !andb_true_iff.
    intros [_ Ht]. f_equal. eauto.
  - destruct (space c); simpl; rewrite ?andb_false_r; [discriminate|].
    rewrite andb_true_iff. intros [Hw Ht]. rewrite Hw. simpl. f_equal. eauto.
Qed.

Lemma tidy_sub_runs (b : bool) (s : str) :
  tidy b s = true -> sub_runs_from hyphen_or_space (lit "-") b s = s.
Proof.
  revert b; induction s as [|c t IH]; intro b; simpl; [reflexivity|].
  destruct (hyphen_or_space c); rewrite !andb_true_iff.
  - intros [[Hc Hb] Ht]. apply is_hyphen_eq in Hc. subst c.
    apply negb_true_iff in Hb. subst b. simpl. f_equal. eauto.
  - intros [_ Ht]. f_equal. eauto.
Qed.

Lemma lstrip_suffix (chars : char -> bool) (s : str) :
  exists p, s = p ++ lstrip chars s.
Proof.
  induction s as [|c t [p Hp]]; simpl.
  - now exists [].
  - destruct (chars c).
    + exists (c :: p). simpl. now rewrite <- Hp.
    + now exists [].
Qed.

Lemma lstrip_head (s : str) : starts_with_hyphen (lstrip is_hyphen s) = false.
Proof.
  induction s as [|c t IH]; simpl; [reflexivity|].
  destruct (is_hyphen c) eqn:Hc; [exact IH | exact Hc].
Qed.

Lemma lstrip_id (s : str) :
  starts_with_hyphen s = false -> lstrip is_hyphen s = s.
Proof.
  destruct s as [|c t]; simpl; [reflexivity|]. now intros ->.
Qed.

Lemma rstrip_prefix (chars : char -> bool) (s : str) :
  exists t, s = rstrip chars s ++ t.
Proof.
  unfold rstrip. destruct (lstrip_suffix chars (rev s)) as [p Hp].
  exists (rev p). rewrite <- rev_app_distr, <- Hp. symmetry. apply rev_involutive.
Qed.

Lemma rstrip_tail (s : str) : ends_with_hyphen (rstrip is_hyphen s) = false.
Proof.
  unfold ends_with_hyphen, rstrip. rewrite rev_involutive. apply lstrip_head.
Qed.

Lemma rstrip_id (s : str) :
  ends_with_hyphen s = false -> rstrip is_hyphen s = s.
Proof.
  unfold ends_with_hyphen, rstrip. intro H.
  rewrite (lstrip_id _ H). apply rev_involutive.
Qed.

Lemma strip_length (chars : char -> bool) (s : str) :
  length (strip chars s) <= length s.
Proof.
  unfold strip.
  destruct (lstrip_suffix chars s) as [p Hp].
  destruct (rstrip_prefix chars (lstrip chars s)) as [t Ht].
  rewrite Hp at 2. rewrite Ht at 2. rewrite !length_app. lia.
Qed.

Lemma strip_tidy (s : str) :
  tidy false s = true ->
  tidy true (strip is_hyphen s) = true /\
  ends_with_hyphen (strip is_hyphen s) = false.
Proof.
  intro H. unfold strip. split; [|apply rstrip_tail].
  destruct (lstrip_suffix is_hyphen s) as [p Hp].
  destruct (rstrip_prefix is_hyphen (lstrip is_hyphen s)) as [t Ht].
  rewrite Hp in H. apply tidy_app_r in H.
  apply tidy_no_leading in H; [|apply lstrip_head].
  rewrite Ht in H. exact (tidy_app_l _ _ _ H).
Qed.

(** The text after the two substitutions and the strip, before the
    truncation. *)
Lemma stripped_tidy (text : str) :
  let stripped :=
    strip is_hyphen
      (sub_runs hyphen_or_space (lit "-") (sub_class unsafe_char [] text)) in
  tidy true stripped = true /\ ends_with_hyphen stripped = false /\
  length stripped <= length text.
Proof.
  intro stripped.
  destruct (strip_tidy (sub_runs hyphen_or_space (lit "-")
                          (sub_class unsafe_char [] text))) as [H1 H2].
  - apply (tidy_weaken false), sub_runs_tidy, sub_class_safe.
  - repeat split; [exact H1 | exact H2 |].
    unfold stripped. etransitivity; [apply strip_length|].
    etransitivity; [apply (sub_runs_length _ HYPHEN)|]. apply sub_class_length.
Qed.

Lemma sanitize_filename_tidy (text : str) :
  tidy true (sanitize_filename text) = true.
Proof.
  destruct (stripped_tidy text) as [H _]. unfold sanitize_filename.
  destruct (strip _ _) as [|c l] eqn:E; [reflexivity|].
  unfold prefix. rewrite <- (firstn_skipn 50 (c :: l)) in H.
  exact (tidy_app_l _ _ _ H).
Qed.

(** What holds of every result: at most 50 characters and never empty,
    only word characters and hyphens, no two hyphens side by side, no
    hyphen in front. *)
Theorem sanitize_filename_shape (text : str) :
  let r := sanitize_filename text in
  length r <= 50 /\ r <> [] /\ word_or_hyphen r = true /\
  single_hyphens r = true /\ starts_with_hyphen r = false.
Proof.
  intro r. pose proof (sanitize_filename_tidy text) as Ht. fold r in Ht.
  split; [|split; [|split; [|split]]].
  - unfold r, sanitize_filename. destruct (strip _ _); [simpl; lia|].
    apply firstn_le_length.
  - unfold r, sanitize_filename. destruct (strip _ _); discriminate.
  - exact (tidy_word_or_hyphen _ _ Ht).
  - exact (tidy_single_hyphens _ _ Ht).
  - exact (tidy_leading _ Ht).
Qed.

(** A name of the shape aimed at, with no hyphen at its end, is left as
    it is. *)
Theorem sanitize_filename_fixed (s : str) :
  s <> [] -> length s <= 50 -> tidy true s = true ->
  ends_with_hyphen s = false -> sanitize_filename s = s.
Proof.
  intros Hne Hlen Ht He. unfold sanitize_filename, sub_runs.
  rewrite (tidy_sub_class _ _ Ht), (tidy_sub_runs _ _ (tidy_weaken _ _ Ht)).
  unfold strip. rewrite (lstrip_id _ (tidy_leading _ Ht)), (rstrip_id _ He).
  destruct s as [|c l]; [congruence|]. apply firstn_all2. exact Hlen.
Qed.

(** Sanitising twice is sanitising once whenever the first result does
    not end in a hyphen. *)
Theorem sanitize_filename_idempotent_unless_cut (text : str) :
  ends_with_hyphen (sanitize_filename text) = false ->
  sanitize_filename (sanitize_filename text) = sanitize_filename text.
Proof.
  intro He. destruct (sanitize_filename_shape text) as (Hlen & Hne & _).
  apply sanitize_filename_fixed; auto using sanitize_filename_tidy.
Qed.

(** A result ends in a hyphen only when the truncation cut it: an input
    of at most 50 characters never gives one. *)
Theorem sanitize_filename_short (text : str) :
  length text <= 50 -> ends_with_hyphen (sanitize_filename text) = false.
Proof.
  intro Hlen. destruct (stripped_tidy text) as (_ & He & Hl).
  unfold sanitize_filename. destruct (strip _ _) as [|c l] eqn:E; [reflexivity|].
  unfold prefix. rewrite firstn_all2; [exact He | lia].
Qed.

(** An input without a word character gets the fallback name. *)
Theorem sanitize_filename_fallback (text : str) :
  forallb (fun c => negb (word c)) text = true ->
  sanitize_filename text = lit "qrcode".
Proof.
  intro H. unfold sanitize_filename, sub_runs.
  rewrite sub_runs_all.
  - now destruct (sub_class unsafe_char [] text).
  - rewrite sub_class_delete. apply Forall_forall. intros c Hc.
    apply filter_In in Hc. destruct Hc as [Hin Hc].
    rewrite forallb_forall in H. specialize (H _ Hin).
    apply negb_true_iff in H, Hc. apply negb_false_iff in Hc.
    unfold hyphen_or_space. rewrite H in Hc. simpl in Hc.
    now rewrite orb_comm.
Qed.

(** C2, at the input that breaks it: 49 letters, a hyphen and one more
    letter are stripped to 51 characters and cut to 50, the last of them
    the hyphen; sanitising that result strips the hyphen.  Whatever the
    Unicode database, the two results differ. *)
Theorem sanitize_filename_twice_at_cut :
  sanitize_filename cut_at_hyphen = repeat 97%N 49 ++ lit "-" /\
  sanitize_filename (sanitize_filename cut_at_hyphen) = repeat 97%N 49 /\
  sanitize_filename (sanitize_filename cut_at_hyphen) <>
  sanitize_filename cut_at_hyphen.
Proof.
  split; [|split]; [vm_compute; reflexivity .. | ].
  intro H. apply (f_equal (@length char)) in H. vm_compute in H. discriminate H.
Qed.

(** C3, at the input that breaks it: the result for 49 letters, a hyphen
    and one more letter has 50 characters and ends in a hyphen. *)
Theorem sanitize_filename_hyphen_at_cut :
  length (sanitize_filename cut_at_hyphen) = 50 /\
  ends_with_hyphen (sanitize_filename cut_at_hyphen) = true /\
  word_or_hyphen (sanitize_filename cut_at_hyphen) = true.
Proof. repeat split; vm_compute; reflexivity. Qed.

End SanitizeFacts.

(** *** Independence of the Unicode database

    The database is consulted for code points from 128 on only: on an
    ASCII text every database gives the same name. *)

Lemma sub_class_ext (cls1 cls2 : char -> bool) (repl s : str) :
  Forall (fun c => cls1 c = cls2 c) s ->
  sub_class cls1 repl s = sub_class cls2 repl s.
Proof.
  induction 1 as [|c t Hc _ IH]; simpl; [reflexivity|].
  now rewrite Hc, IH.
Qed.

Lemma sub_runs_from_ext (cls1 cls2 : char -> bool) (repl : str) (b : bool)
    (s : str) :
  Forall (fun c => cls1 c = cls2 c) s ->
  sub_runs_from cls1 repl b s = sub_runs_from cls2 repl b s.
Proof.
  intro H. revert b. induction H as [|c t Hc _ IH]; intro b; simpl.
  - reflexivity.
  - now rewrite Hc, !IH.
Qed.

Lemma classes_ascii (U V : UnicodeData) (c : char) :
  (c < 128)%N ->
  word (U := U) c = word (U := V) c /\ space (U := U) c = space (U := V) c.
Proof.
  intro Hc. apply N.ltb_lt in Hc.
  unfold word, space, isalnum, isspace. now rewrite Hc.
Qed.

Theorem sanitize_filename_ascii (U V : UnicodeData) (text : str) :
  Forall (fun c => (c < 128)%N) text ->
  sanitize_filename (U := U) text = sanitize_filename (U := V) text.
Proof.
  intro H. unfold sanitize_filename, sub_runs.
  assert (E : sub_class (unsafe_char (U := U)) [] text =
              sub_class (unsafe_char (U := V)) [] text).
  { apply sub_class_ext. eapply Forall_impl; [|exact H].
    intros c Hc. destruct (classes_ascii U V c Hc) as [Hw Hs].
    unfold unsafe_char. now rewrite Hw, Hs. }
  rewrite E.
  assert (E' : sub_runs_from (hyphen_or_space (U := U)) (lit "-") false
                 (sub_class (unsafe_char (U := V)) [] text) =
               sub_runs_from (hyphen_or_space (U := V)) (lit "-") false
                 (sub_class (unsafe_char (U := V)) [] text)).
  { apply sub_runs_from_ext. rewrite sub_class_delete.
    apply Forall_forall. intros c Hc. apply filter_In in Hc.
    destruct Hc as [Hin _]. rewrite Forall_forall in H.
    destruct (classes_ascii U V c (H _ Hin)) as [_ Hs].
    unfold hyphen_or_space. now rewrite Hs. }
  now rewrite E'.
Qed.

(** ** The output target *)

Section Resolver.
Context {U : UnicodeData}.

Lemma resolve_target_explicit (args : Args.t) (p : str) :
  Args.out args = Some p -> p <> [] ->
  resolve_target args = if Str.eqb p (lit "-") then Stream else File p.
Proof.
  intros Hout Hp. unfold resolve_target, output_target. rewrite Hout.
  destruct p as [|c p]; [congruence|]. simpl truthy. cbn iota. simpl value.
  now destruct (Str.eqb (c :: p) (lit "-")).
Qed.

Lemma resolve_target_auto (args : Args.t) :
  truthy (Args.out args) = false ->
  resolve_target args =
  match format_of args with
  | Raster => File (sanitize_filename (Args.input args) ++ lit ".png")
  | Vector => File (sanitize_filename (Args.input args) ++ lit ".svg")
  | Text => Stream
  end.
Proof.
  intro H. unfold resolve_target, output_target, format_of. rewrite H.
  destruct (Args.to_png args), (Args.to_svg args); reflexivity.
Qed.

(** With an empty explicit path the name is derived from the input,
    whatever the Unicode database. *)
Lemma resolve_target_empty_path (text : str) :
  resolve_target (args_of text true false (Some [])) =
  File (sanitize_filename text ++ lit ".png").
Proof. reflexivity. Qed.

(** C1, amended: a non-empty explicit path other than the sentinel is
    the file written; the sentinel is the stream, whatever the format;
    with no explicit path, or with an empty one, a raster format writes
    the file named by the sanitised input and [.png], a vector format the
    one with [.svg], and the text format writes the stream. *)
Theorem resolve_target_policy (args : Args.t) :
  (forall p, Args.out args = Some p -> p <> [] -> p <> lit "-" ->
             resolve_target args = File p) /\
  (Args.out args = Some (lit "-") -> resolve_target args = Stream) /\
  (Args.out args = None \/ Args.out args = Some [] ->
   resolve_target args =
   match format_of args with
   | Raster => File (sanitize_filename (Args.input args) ++ lit ".png")
   | Vector => File (sanitize_filename (Args.input args) ++ lit ".svg")
   | Text => Stream
   end).
Proof.
  split; [|split].
  - intros p Hout Hne Hp. rewrite (resolve_target_explicit _ _ Hout Hne).
    apply str_eqb_neq in Hp. now rewrite Hp.
  - intro Hout. rewrite (resolve_target_explicit _ _ Hout); [reflexivity | discriminate].
  - intros [Hout|Hout]; apply resolve_target_auto; now rewrite Hout.
Qed.

(** C10, amended: two invocations with the same non-empty explicit path
    and the same format have the same target, whatever their input
    texts. *)
Theorem explicit_path_ignores_input (a b : Args.t) (p : str) :
  p <> [] -> Args.out a = Some p -> Args.out b = Some p ->
  format_of a = format_of b ->
  resolve_target a = resolve_target b.
Proof.
  intros Hp Ha Hb _.
  now rewrite (resolve_target_explicit _ _ Ha Hp), (resolve_target_explicit _ _ Hb Hp).
Qed.

(** C6: with no explicit path and the raster format, the input
    [https://example.com] is written to [httpsexamplecom.png], and an
    input without a single word character, such as one of punctuation
    only, is written to [qrcode.png]. *)
Theorem resolver_scenarios (args : Args.t) :
  Args.out args = None -> format_of args = Raster ->
  (Args.input args = lit "https://example.com" ->
   resolve_target args = File (lit "httpsexamplecom.png")) /\
  (forallb (fun c => negb (word c)) (Args.input args) = true ->
   resolve_target args = File (lit "qrcode.png")).
Proof.
  intros Hout Hfmt. rewrite resolve_target_auto by now rewrite Hout.
  rewrite Hfmt. split.
  - intros ->. reflexivity.
  - intro H. now rewrite sanitize_filename_fallback.
Qed.

End Resolver.

(** C1, as stated, fails: [--to-png --out ''] gives an explicit path
    that is not the sentinel, and the file written is [a.png], named
    after the input [a], not the file at the empty path.  (The input is
    ASCII, so the choice of the database plays no part.) *)
Lemma three_step_policy_fails :
  ~ three_step_policy (U := ascii_only) (args_of (lit "a") true false (Some [])).
Proof.
  intros [H _]. specialize (H [] eq_refl).
  rewrite resolve_target_empty_path in H.
  assert (E : File (sanitize_filename (U := ascii_only) (lit "a") ++ lit ".png") = File [])
    by (apply H; discriminate).
  vm_compute in E. discriminate E.
Qed.

Lemma resolve_target_policy_witness :
  resolve_target (U := ascii_only)
    (args_of (lit "a") false true (Some (lit "code.svg"))) = File (lit "code.svg") /\
  resolve_target (U := ascii_only)
    (args_of (lit "a") false true (Some (lit "-"))) = Stream /\
  resolve_target (U := ascii_only) (args_of (lit "a b") false true None) =
    File (lit "a-b.svg").
Proof.
  split; [|split].
  - apply (proj1 (resolve_target_policy (U := ascii_only) _) (lit "code.svg"));
      [reflexivity | discriminate | discriminate].
  - apply (proj1 (proj2 (resolve_target_policy (U := ascii_only) _))).
    reflexivity.
  - apply (proj2 (proj2 (resolve_target_policy (U := ascii_only)
                           (args_of (lit "a b") false true None)))).
    left. reflexivity.
Defined.

(** C10, as stated, fails: [--to-png --out ''] with the inputs [a] and
    [b] has the same explicit path and the same format both times, and
    writes [a.png] the first time and [b.png] the second.  (The inputs
    are ASCII, so the choice of the database plays no part.) *)
Lemma explicit_path_decides_fails :
  ~ explicit_path_decides (U := ascii_only)
      (args_of (lit "a") true false (Some []))
      (args_of (lit "b") true false (Some [])).
Proof.
  intro H.
  assert (E : resolve_target (U := ascii_only) (args_of (lit "a") true false (Some [])) =
              resolve_target (U := ascii_only) (args_of (lit "b") true false (Some [])))
    by (apply H; [discriminate | reflexivity | reflexivity]).
  vm_compute in E. discriminate E.
Qed.

Lemma explicit_path_ignores_input_witness :
  resolve_target (U := ascii_only)
    (args_of (lit "a") true false (Some (lit "out.png"))) =
  resolve_target (U := ascii_only)
    (args_of (lit "b") true false (Some (lit "out.png"))).
Proof.
  apply (explicit_path_ignores_input (U := ascii_only) _ _ (lit "out.png"));
    [discriminate | reflexivity | reflexivity | reflexivity].
Defined.

Lemma resolver_scenarios_witness :
  resolve_target (U := ascii_only)
    (args_of (lit "https://example.com") true false None) =
    File (lit "httpsexamplecom.png") /\
  resolve_target (U := ascii_only) (args_of (lit "!?.,;") true false None) =
    File (lit "qrcode.png").
Proof.
  split.
  - apply (proj1 (resolver_scenarios (U := ascii_only)
                    (args_of (lit "https://example.com") true false None)
                    eq_refl eq_refl)).
    reflexivity.
  - apply (proj2 (resolver_scenarios (U := ascii_only)
                    (args_of (lit "!?.,;") true false None)
                    eq_refl eq_refl)).
    reflexivity.
Defined.

(** ** The vector renderer *)

Lemma contains_In (l : list str) (x : str) : contains l x = true <-> In x l.
Proof.
  unfold contains. rewrite existsb_exists. split.
  - intros [y [Hin Heq]]. apply str_eqb_eq in Heq. now subst.
  - intro Hin. exists x. split; [exact Hin | apply str_eqb_refl].
Qed.

Lemma contains_not_In (l : list str) (x : str) :
  ~ In x l -> contains l x = false.
Proof.
  intro H. destruct (contains l x) eqn:E; [|reflexivity].
  now apply contains_In in E.
Qed.

(** A command line that names an unknown style is rejected, whatever
    else it holds. *)
Lemma parse_args_unknown_style {P : PyInt} (cl : CommandLine) (style : str) :
  cl_svg_style cl = Some style -> ~ In style svg_styles ->
  parse_args cl = raise (SystemExit 2).
Proof.
  intros Hstyle Hin. unfold parse_args. rewrite Hstyle.
  destruct (cl_input cl); [|reflexivity].
  destruct (cl_to_png cl && cl_to_svg cl)%bool; [reflexivity|].
  destruct (choice (keys EC_LEVELS) (lit "M") (cl_level cl)) as [e|l] eqn:El.
  { unfold choice in El. destruct (cl_level cl); [|discriminate El].
    destruct (contains _ _); [discriminate El|]. now inversion El. }
  assert (Hint : forall d g, (exists n, int_option d g = ret n) \/
                             int_option d g = raise (SystemExit 2)).
  { intros d [v|]; simpl; [destruct (int v)|]; eauto. }
  cbn [bind].
  destruct (Hint 10%Z (cl_box_size cl)) as [[n ->]| ->]; [|reflexivity].
  cbn [bind ret].
  destruct (Hint 4%Z (cl_border cl)) as [[k ->]| ->]; [|reflexivity].
  cbn [bind ret]. unfold choice. now rewrite (contains_not_In _ _ Hin).
Qed.

(** C5, as stated, fails: with a package that renders, [emit_svg] given
    the style [bogus] returns a rendering and signals nothing. *)
Lemma unknown_style_raises_fails :
  ~ unknown_style_raises (Q := plain_lib) [[true]] (lit "bogus").
Proof.
  intro H. destruct H as [e He].
  - simpl. intros [E|[E|[E|[]]]]; discriminate E.
  - vm_compute in He. discriminate He.
Qed.

(** C5, amended: [emit_svg] signals no error of its own for a style
    that is not one of the three: it renders it as it renders [path],
    and fails only if the package does.  Such a style never reaches it
    from the command line: the parser rejects the command line, and
    [main] ends with exit status 2 before anything is built. *)
Theorem emit_svg_unknown_style {U : UnicodeData} {Q : QRCodeLib} {P : PyInt}
    (qr : QRCode) (style : str) :
  ~ In style svg_styles ->
  emit_svg qr style = emit_svg qr (lit "path") /\
  emit_svg qr style = svg_image qr SvgPathImage /\
  forall cl, cl_svg_style cl = Some style -> main cl = raise (SystemExit 2).
Proof.
  intro Hin.
  assert (Hrect : Str.eqb style (lit "rect") = false).
  { apply str_eqb_neq. intros ->. apply Hin. simpl. tauto. }
  assert (Hfrag : Str.eqb style (lit "frag") = false).
  { apply str_eqb_neq. intros ->. apply Hin. simpl. tauto. }
  unfold emit_svg. rewrite Hrect, Hfrag. repeat split.
  intros cl Hcl. unfold main.
  now rewrite (parse_args_unknown_style cl style Hcl Hin).
Qed.

Lemma emit_svg_unknown_style_witness :
  emit_svg (Q := plain_lib) [[true]] (lit "bogus") = ret (lit "SvgPathImage").
Proof.
  refine (proj1 (proj2 (emit_svg_unknown_style
                          (U := ascii_only) (Q := plain_lib) (P := no_int)
                          [[true]] (lit "bogus") _))).
  simpl. intros [E|[E|[E|[]]]]; discriminate E.
Defined.

(** ** The command line defaults *)

Lemma parse_args_bare {P : PyInt} (text : str) :
  parse_args (bare text) = ret (args_of text false false None).
Proof. reflexivity. Qed.

(** With the input alone, [main] builds the code at level M with module
    size 10 and border 4, and writes its unicode text rendering to the
    output stream. *)
Lemma main_bare {U : UnicodeData} {Q : QRCodeLib} {P : PyInt} (text : str) :
  main (bare text) =
  (qr <- new_qr ERROR_CORRECT_M 10%Z 4%Z text ;;
   ret (StdoutText (emit_text (get_matrix qr) true), 0%Z)).
Proof. reflexivity. Qed.

(** C8: whenever the command line is accepted, an option that was not
    given has its default: level M, module size 10, border 4, style
    [path]; and with neither format flag the format is text. *)
Theorem cli_defaults {P : PyInt} (cl : CommandLine) (args : Args.t) :
  parse_args cl = ret args ->
  (cl_level cl = None -> Args.level args = lit "M") /\
  (cl_box_size cl = None -> Args.box_size args = 10%Z) /\
  (cl_border cl = None -> Args.border args = 4%Z) /\
  (cl_svg_style cl = None -> Args.svg_style args = lit "path") /\
  (cl_to_png cl = false -> cl_to_svg cl = false -> format_of args = Text).
Proof.
  unfold parse_args. destruct (cl_input cl); [|discriminate].
  destruct (cl_to_png cl && cl_to_svg cl)%bool; [discriminate|].
  destruct (choice _ _ (cl_level cl)) as [e|l] eqn:El; [discriminate|].
  cbn [bind].
  destruct (int_option 10%Z (cl_box_size cl)) as [e|n] eqn:En; [discriminate|].
  cbn [bind].
  destruct (int_option 4%Z (cl_border cl)) as [e|k] eqn:Ek; [discriminate|].
  cbn [bind].
  destruct (choice _ _ (cl_svg_style cl)) as [e|y] eqn:Ey; [discriminate|].
  cbn [bind]. intros [= <-]. unfold format_of. cbn.
  repeat split.
  - intro H. rewrite H in El. now inversion El.
  - intro H. rewrite H in En. now inversion En.
  - intro H. rewrite H in Ek. now inversion Ek.
  - intro H. rewrite H in Ey. now inversion Ey.
  - intros -> ->. reflexivity.
Qed.

Lemma cli_defaults_witness :
  let args := args_of (lit "TEST") false false None in
  Args.level args = lit "M" /\ Args.box_size args = 10%Z /\
  Args.border args = 4%Z /\ Args.svg_style args = lit "path" /\
  format_of args = Text.
Proof.
  destruct (cli_defaults (P := no_int) (bare (lit "TEST"))
              (args_of (lit "TEST") false false None)
              (parse_args_bare (lit "TEST")))
    as (H1 & H2 & H3 & H4 & H5).
  exact (conj (H1 eq_refl) (conj (H2 eq_refl) (conj (H3 eq_refl)
           (conj (H4 eq_refl) (H5 eq_refl eq_refl))))).
Defined.

(** * Further properties *)

(** ** More on the file name sanitiser *)

Section SanitizeMore.
Context {U : UnicodeData}.

Lemma tidy_chars (b : bool) (s : str) :
  tidy b s = true ->
  Forall (fun c => c = HYPHEN \/ (word c = true /\ space c = false)) s.
Proof.
  revert b; induction s as [|c t IH]; intros b H; [constructor|].
  constructor; [|exact (IH _ (tidy_tail _ _ _ H))].
  simpl in H. destruct (hyphen_or_space c) eqn:Hcls.
  - left. apply is_hyphen_eq.
    apply andb_true_iff in H. destruct H as [H _].
    apply andb_true_iff in H. tauto.
  - right. apply andb_true_iff in H. destruct H as [H _].
    unfold hyphen_or_space in Hcls. apply orb_false_iff in Hcls. tauto.
Qed.

Lemma word_ascii (c : char) :
  (c < 128)%N -> word c = true -> c = UNDERSCORE \/ ascii_isalnum c = true.
Proof.
  intros Hc Hw. apply N.ltb_lt in Hc. unfold word, isalnum in Hw.
  rewrite Hc in Hw. apply orb_true_iff in Hw.
  destruct Hw as [Hw|Hw]; [now right | left; now apply N.eqb_eq].
Qed.

(** X1: whatever the input, the name returned is not empty, has at most
    50 characters, does not start with a hyphen, has no two hyphens side
    by side, and every character of it is a hyphen or a word character
    that is no white space; an ASCII character of it is a hyphen, an
    underscore, a digit or a letter. *)
Theorem sanitize_filename_safe_name (text : str) :
  let r := sanitize_filename text in
  r <> [] /\ length r <= 50 /\
  starts_with_hyphen r = false /\ single_hyphens r = true /\
  Forall (fun c =>
            (c = HYPHEN \/ (word c = true /\ space c = false)) /\
            ((c < 128)%N ->
             c = HYPHEN \/ c = UNDERSCORE \/ ascii_isalnum c = true))
         r.
Proof.
  intro r. destruct (sanitize_filename_shape text) as (Hl & Hne & _ & Hs & Hh).
  repeat (split; [assumption|]).
  eapply Forall_impl; [|exact (tidy_chars _ _ (sanitize_filename_tidy text))].
  intros c Hc. split; [exact Hc|]. intro Hlt.
  destruct Hc as [Hc|[Hw _]]; [now left | right].
  exact (word_ascii c Hlt Hw).
Qed.

(** X2: sanitising twice is sanitising once whenever the first result
    does not end in a hyphen; an input of at most 50 characters never
    gives a result that ends in a hyphen, so for such an input
    sanitising is idempotent. *)
Theorem sanitize_filename_idempotent_when (text : str) :
  (ends_with_hyphen (sanitize_filename text) = false ->
   sanitize_filename (sanitize_filename text) = sanitize_filename text) /\
  (length text <= 50 ->
   ends_with_hyphen (sanitize_filename text) = false /\
   sanitize_filename (sanitize_filename text) = sanitize_filename text).
Proof.
  split.
  - apply sanitize_filename_idempotent_unless_cut.
  - intro Hlen. pose proof (sanitize_filename_short text Hlen) as He.
    split; [exact He | exact (sanitize_filename_idempotent_unless_cut text He)].
Qed.

Lemma clean_tidy (b : bool) (s : str) :
  forallb (fun c => is_hyphen c || (word c && negb (space c)))%bool s = true ->
  single_hyphens s = true ->
  (b = true -> starts_with_hyphen s = false) ->
  tidy b s = true.
Proof.
  revert b; induction s as [|c t IH]; intros b Hall Hs Hb; [reflexivity|].
  cbn [forallb] in Hall. apply andb_true_iff in Hall. destruct Hall as [Hc Ht].
  assert (Hs' : single_hyphens t = true).
  { destruct t as [|d t']; [reflexivity|].
    cbn [single_hyphens] in Hs. apply andb_true_iff in Hs. tauto. }
  cbn [tidy]. unfold hyphen_or_space.
  destruct (is_hyphen c) eqn:Hh; cbn [orb andb].
  - assert (b = false) as ->.
    { destruct b; [|reflexivity]. specialize (Hb eq_refl). simpl in Hb. congruence. }
    cbn [negb andb]. apply IH; try assumption. intros _.
    destruct t as [|d t']; [reflexivity|].
    cbn [single_hyphens] in Hs. rewrite Hh in Hs. cbn [andb] in Hs.
    apply andb_true_iff in Hs. destruct Hs as [Hs _].
    simpl. now apply negb_true_iff in Hs.
  - cbn [orb] in Hc. apply andb_true_iff in Hc. destruct Hc as [Hw Hsp].
    apply negb_true_iff in Hsp. rewrite Hsp, Hw. cbn [andb].
    apply IH; try assumption. discriminate.
Qed.

Lemma tidy_clean_chars (b : bool) (s : str) :
  tidy b s = true ->
  forallb (fun c => is_hyphen c || (word c && negb (space c)))%bool s = true.
Proof.
  intro H. apply forallb_forall. intros c Hc.
  pose proof (tidy_chars _ _ H) as Hall. rewrite Forall_forall in Hall.
  destruct (Hall c Hc) as [->|[Hw Hs]]; [reflexivity|].
  rewrite Hw, Hs. apply orb_true_r.
Qed.

(** X3: the names [sanitize_filename] returns unchanged are exactly the
    clean names: 1 to 50 characters, each a hyphen or a word character
    that is no white space, no two hyphens side by side, no hyphen in
    front or at the end. *)
Theorem sanitize_filename_fixed_points (s : str) :
  sanitize_filename s = s <-> clean_name s = true.
Proof.
  unfold clean_name. rewrite !andb_true_iff, !negb_true_iff.
  rewrite Nat.leb_le, Nat.leb_le. split.
  - intro E.
    destruct (sanitize_filename_shape s) as (Hl & Hne & _ & Hs & Hh).
    pose proof (sanitize_filename_tidy s) as Ht.
    rewrite E in Hl, Hne, Hs, Hh, Ht.
    pose proof (sanitize_filename_short s Hl) as He. rewrite E in He.
    repeat split; try assumption.
    + exact (tidy_clean_chars _ _ Ht).
    + destruct s; [congruence | simpl; lia].
  - intros (((((Hh & He) & Hs) & Hall) & H1) & H50).
    apply sanitize_filename_fixed; try assumption.
    + intros ->. simpl in H1. lia.
    + apply clean_tidy; auto.
Qed.

(** A character is dropped, or is part of a separator, or is kept. *)
Lemma char_cases (c : char) :
  (unsafe_char c = true /\ kept c = false) \/
  (unsafe_char c = false /\ hyphen_or_space c = true /\ kept c = false) \/
  (unsafe_char c = false /\ hyphen_or_space c = false /\
   is_hyphen c = false /\ kept c = true).
Proof.
  unfold unsafe_char, kept, hyphen_or_space.
  destruct (word c), (space c), (is_hyphen c); simpl; tauto.
Qed.





Lemma collapsed_letters (b : bool) (text : str) :
  filter (fun c => negb (is_hyphen c))
    (sub_runs_from hyphen_or_space (lit "-") b (sub_class unsafe_char [] text))
  = filter kept text.
Proof.
  revert b; induction text as [|c t IH]; intro b; [reflexivity|].
  cbn [filter sub_class].
  destruct (char_cases c) as [(Hu & Hk)|[(Hu & Hc & Hk)|(Hu & Hc & Hh & Hk)]];
    rewrite Hu, Hk; cbn [app sub_runs_from]; rewrite ?Hc.
  - apply IH.
  - destruct b; cbn [app]; [apply IH|].
    change (lit "-" ++ ?x) with (HYPHEN :: x). cbn [filter].
    change (is_hyphen HYPHEN) with true. cbn [negb]. apply IH.
  - cbn [filter]. rewrite Hh. cbn [negb]. now rewrite IH.
Qed.

Lemma lstrip_letters (s : str) :
  filter (fun c => negb (is_hyphen c)) (lstrip is_hyphen s) =
  filter (fun c => negb (is_hyphen c)) s.
Proof.
  induction s as [|c t IH]; [reflexivity|].
  cbn [lstrip]. destruct (is_hyphen c) eqn:Hh; cbn [filter]; rewrite Hh.
  - exact IH.
  - reflexivity.
Qed.

Lemma rstrip_letters (s : str) :
  filter (fun c => negb (is_hyphen c)) (rstrip is_hyphen s) =
  filter (fun c => negb (is_hyphen c)) s.
Proof.
  unfold rstrip. rewrite filter_rev, lstrip_letters, <- filter_rev.
  now rewrite rev_involutive.
Qed.

(** X5: the name invents nothing and reorders nothing: unless it is the
    fallback name, its characters other than hyphens are, in order, the
    first of the characters of the input that are word characters and no
    white space. *)
Theorem sanitize_filename_letters (text : str) :
  sanitize_filename text = lit "qrcode" \/
  exists dropped,
    filter kept text =
    filter (fun c => negb (is_hyphen c)) (sanitize_filename text) ++ dropped.
Proof.
  unfold sanitize_filename, sub_runs, strip.
  destruct (rstrip _ _) as [|c l] eqn:E; [now left | right].
  rewrite <- E. clear E c l.
  set (stripped := rstrip is_hyphen _).
  exists (filter (fun c => negb (is_hyphen c)) (skipn 50 stripped)).
  unfold prefix. rewrite <- filter_app, firstn_skipn.
  unfold stripped. now rewrite rstrip_letters, lstrip_letters, collapsed_letters.
Qed.

End SanitizeMore.

Lemma sanitize_filename_idempotent_when_witness :
  let text := lit "My file (v2).txt" in
  length text <= 50 /\
  ends_with_hyphen (sanitize_filename (U := ascii_only) text) = false /\
  sanitize_filename (U := ascii_only) (sanitize_filename (U := ascii_only) text) =
  sanitize_filename (U := ascii_only) text.
Proof.
  assert (Hlen : length (lit "My file (v2).txt") <= 50) by (vm_compute; lia).
  exact (conj Hlen
           (proj2 (sanitize_filename_idempotent_when (U := ascii_only)
                     (lit "My file (v2).txt")) Hlen)).
Defined.

(** ** More on the text renderer *)

Lemma emit_text_length_rows (use_unicode : bool) (row : list bool)
    (rest : Matrix) :
  length (emit_text (row :: rest) use_unicode) =
  list_sum (map (fun r => cell_width use_unicode * length r + 1) (row :: rest)).
Proof.
  rewrite emit_text_rows, length_concat, !map_map. f_equal.
  apply map_ext. intro r. rewrite length_app, line_length. reflexivity.
Qed.

Lemma list_sum_constant {A} (f : A -> nat) (k : nat) (l : list A) :
  Forall (fun x => f x = k) l -> list_sum (map f l) = length l * k.
Proof.
  induction 1 as [|x l Hx _ IH]; simpl; [reflexivity|].
  now rewrite Hx, IH.
Qed.

(** X6: for a square matrix of side n, n at least 1, the text has
    n * (n + 1) characters in unicode mode and n * (2n + 1) in ASCII
    mode: n lines of n cells, each line with its newline. *)
Theorem emit_text_size (m : Matrix) (use_unicode : bool) :
  m <> [] -> square m ->
  length (emit_text m use_unicode) =
  length m * (cell_width use_unicode * length m + 1).
Proof.
  intros Hne Hsq. destruct m as [|row rest]; [congruence|].
  rewrite emit_text_length_rows. apply list_sum_constant.
  eapply Forall_impl; [|exact Hsq]. intros r Hr. simpl in Hr. now rewrite Hr.
Qed.

Lemma emit_text_size_witness :
  length (emit_text [[true; false]; [false; true]] false) = 2 * (2 * 2 + 1).
Proof.
  apply (emit_text_size [[true; false]; [false; true]] false).
  - discriminate.
  - repeat constructor.
Defined.

Lemma emit_text_chars (P : char -> Prop) (m : Matrix) (use_unicode : bool) :
  P NEWLINE -> (forall dark, Forall P (cell use_unicode dark)) ->
  Forall P (emit_text m use_unicode).
Proof.
  intros Hnl Hcell. destruct m as [|row rest].
  - destruct use_unicode; now repeat constructor.
  - rewrite emit_text_rows. apply Forall_concat, Forall_map, Forall_map.
    apply Forall_forall. intros r _. apply Forall_app. split.
    + unfold line. apply Forall_concat, Forall_map, Forall_forall.
      intros dark _. apply Hcell.
    + now repeat constructor.
Qed.

(** X7: the unicode rendering is made of full blocks, spaces and
    newlines only; the ASCII rendering of hash signs, spaces and newlines
    only, so every character of it is an ASCII character. *)
Theorem emit_text_alphabet (m : Matrix) :
  Forall (fun c => c = FULL_BLOCK \/ c = SPACE \/ c = NEWLINE) (emit_text m true) /\
  Forall (fun c => c = HASH \/ c = SPACE \/ c = NEWLINE) (emit_text m false) /\
  Forall (fun c => (c < 128)%N) (emit_text m false).
Proof.
  split; [|split]; apply emit_text_chars; try tauto;
    try (intros [|]; repeat constructor; tauto);
    try reflexivity;
    intros [|]; repeat constructor.
Qed.

Lemma unline_line (use_unicode : bool) (row : list bool) :
  unline use_unicode (line use_unicode row) = row.
Proof.
  unfold line. induction row as [|dark row IH]; [now destruct use_unicode|].
  cbn [map concat].
  destruct use_unicode, dark; cbn [cell app unline];
    change (lit "##") with [HASH; HASH]; change (lit "  ") with [SPACE; SPACE];
    change (lit " ") with [SPACE]; cbn [app unline]; now rewrite IH.
Qed.

Lemma line_empty (use_unicode : bool) (row : list bool) :
  line use_unicode row = [] -> row = [].
Proof.
  intro H. apply (f_equal (@length char)) in H. rewrite line_length in H.
  destruct row; [reflexivity|]. destruct use_unicode; simpl in H; lia.
Qed.

(** X8: the text rendering loses no module: two matrices with the same
    rendering in the same mode are equal, except that the matrix without
    rows and the matrix of one row without modules are both rendered as
    a single newline. *)
Theorem emit_text_injective (m1 m2 : Matrix) (use_unicode : bool) :
  emit_text m1 use_unicode = emit_text m2 use_unicode ->
  m1 = m2 \/ (m1 = [] /\ m2 = [[]]) \/ (m1 = [[]] /\ m2 = []).
Proof.
  intro E. apply (f_equal splitlines) in E.
  rewrite !splitlines_emit_text in E.
  destruct m1 as [|r1 m1], m2 as [|r2 m2].
  - now left.
  - right; left. cbn [map] in E. injection E as E1 E2.
    symmetry in E1. apply line_empty in E1.
    destruct m2; [subst; auto | discriminate E2].
  - right; right. cbn [map] in E. injection E as E1 E2.
    apply line_empty in E1.
    destruct m1; [subst; auto | discriminate E2].
  - left. apply (f_equal (map (unline use_unicode))) in E.
    rewrite !map_map in E.
    rewrite (map_ext _ (fun r => r) (unline_line use_unicode)) in E.
    rewrite (map_ext (fun x => unline use_unicode (line use_unicode x))
               (fun r => r) (unline_line use_unicode)) in E.
    now rewrite !map_id in E.
Qed.

Lemma emit_text_injective_witness :
  let m1 : Matrix := [] in
  let m2 : Matrix := [[]] in
  emit_text m1 true = emit_text m2 true /\
  (m1 = m2 \/ (m1 = [] /\ m2 = [[]]) \/ (m1 = [[]] /\ m2 = [])).
Proof.
  exact (conj eq_refl (emit_text_injective [] [[]] true eq_refl)).
Defined.

(** ** The derived file name *)

Lemma word_not_separator {U : UnicodeData} (c : char) :
  word c = true -> c <> 47%N /\ c <> 92%N /\ c <> 0%N /\ c <> 46%N.
Proof.
  intro Hw. repeat split; intros ->; vm_compute in Hw; discriminate Hw.
Qed.

(** X9: a name derived from the input is a plain file name: the
    sanitised input followed by [.png] or [.svg], at most 54 characters,
    with no slash, no backslash and no NUL in it, and with a word
    character in front, so it names no directory, no hidden file and
    nothing that looks like an option. *)
Theorem auto_name_plain {U : UnicodeData} (args : Args.t) :
  truthy (Args.out args) = false -> format_of args <> Text ->
  exists ext first rest,
    (ext = lit ".png" \/ ext = lit ".svg") /\
    resolve_target args = File (sanitize_filename (Args.input args) ++ ext) /\
    sanitize_filename (Args.input args) ++ ext = first :: rest /\
    word first = true /\
    length (first :: rest) <= 54 /\
    Forall (fun c => c <> 47%N /\ c <> 92%N /\ c <> 0%N) (first :: rest).
Proof.
  intros Hout Hfmt.
  destruct (sanitize_filename_shape (Args.input args)) as (Hl & Hne & _ & _ & Hh).
  pose proof (tidy_chars _ _ (sanitize_filename_tidy (Args.input args))) as Hall.
  assert (Hext : exists ext,
             (ext = lit ".png" \/ ext = lit ".svg") /\
             resolve_target args =
             File (sanitize_filename (Args.input args) ++ ext)).
  { rewrite (resolve_target_auto _ Hout).
    destruct (format_of args);
      [congruence | exists (lit ".png") | exists (lit ".svg")]; auto. }
  destruct Hext as (ext & Hext & Hres).
  destruct (sanitize_filename (Args.input args)) as [|first rest]; [congruence|].
  exists ext, first, (rest ++ ext).
  split; [exact Hext|]. split; [exact Hres|]. split; [reflexivity|].
  assert (Hw : word first = true).
  { inversion Hall as [|? ? [Hc|[Hc _]] _]; subst; [|exact Hc].
    simpl in Hh. discriminate Hh. }
  split; [exact Hw|]. split.
  - change (first :: rest ++ ext) with ((first :: rest) ++ ext).
    rewrite length_app. destruct Hext as [-> | ->]; simpl in *; lia.
  - change (first :: rest ++ ext) with ((first :: rest) ++ ext).
    apply Forall_app. split.
    + eapply Forall_impl; [|exact Hall]. intros c [-> | [Hc _]].
      * repeat split; discriminate.
      * pose proof (word_not_separator c Hc). tauto.
    + destruct Hext as [-> | ->]; repeat constructor; discriminate.
Qed.

Lemma auto_name_plain_witness :
  exists ext first rest,
    (ext = lit ".png" \/ ext = lit ".svg") /\
    resolve_target (U := ascii_only)
      (args_of (lit "../etc/passwd") false true None) =
      File (sanitize_filename (U := ascii_only) (lit "../etc/passwd") ++ ext) /\
    sanitize_filename (U := ascii_only) (lit "../etc/passwd") ++ ext =
      first :: rest /\
    word (U := ascii_only) first = true /\
    length (first :: rest) <= 54 /\
    Forall (fun c => c <> 47%N /\ c <> 92%N /\ c <> 0%N) (first :: rest).
Proof.
  apply (auto_name_plain (U := ascii_only)
           (args_of (lit "../etc/passwd") false true None)).
  - reflexivity.
  - discriminate.
Defined.

(** ** Building the code *)

Lemma getitem_missing {V} (d : list (str * V)) (key : str) :
  ~ In key (keys d) -> getitem d key = raise (KeyError key).
Proof.
  induction d as [|[k v] d IH]; intro H; [reflexivity|].
  simpl in *. destruct (Str.eqb k key) eqn:E.
  - apply str_eqb_eq in E. tauto.
  - apply IH. tauto.
Qed.

Lemma getitem_found {V} (d : list (str * V)) (key : str) :
  In key (keys d) -> exists v, In (key, v) d /\ getitem d key = ret v.
Proof.
  induction d as [|[k v] d IH]; intro H; [destruct H|].
  simpl. destruct (Str.eqb k key) eqn:E.
  - apply str_eqb_eq in E. subst. exists v. auto.
  - apply str_eqb_neq in E. destruct H as [H|H]; [simpl in H; congruence|].
    destruct (IH H) as (w & Hw & Hg). exists w. auto.
Qed.

(** X10: [build_qr] with a level that is none of L, M, Q and H ends
    with [KeyError] for that level and asks nothing of the package; with
    one of the four it hands the package the constant of that level, the
    module size, the border and the data, and fails only if the package
    does. *)
Theorem build_qr_level {Q : QRCodeLib} (data level : str) (box_size border : Z) :
  (~ In level (keys EC_LEVELS) ->
   build_qr data level box_size border = raise (KeyError level)) /\
  (In level (keys EC_LEVELS) ->
   exists ec, In (level, ec) EC_LEVELS /\
              build_qr data level box_size border =
              new_qr ec box_size border data).
Proof.
  unfold build_qr. split; intro H.
  - now rewrite (getitem_missing _ _ H).
  - destruct (getitem_found _ _ H) as (ec & Hin & ->). now exists ec.
Qed.

(** ** The parser *)

Lemma choice_spec (choices : list str) (default : str) (given : option str) :
  choice choices default given =
  if given_in choices given
  then ret (match given with Some v => v | None => default end)
  else raise (SystemExit 2).
Proof.
  destruct given as [v|]; simpl; [|reflexivity].
  now destruct (contains choices v).
Qed.

Lemma int_option_spec {P : PyInt} (default : Z) (given : option str) :
  int_option default given =
  if given_int given
  then ret (match given with
            | Some v => match int v with Some n => n | None => default end
            | None => default
            end)
  else raise (SystemExit 2).
Proof.
  destruct given as [v|]; simpl; [|reflexivity].
  now destruct (int v).
Qed.

(** The parser accepts the acceptable command lines, and those only. *)
Lemma parse_args_spec {P : PyInt} (cl : CommandLine) :
  parse_args cl =
  if acceptable cl then ret (namespace_of cl) else raise (SystemExit 2).
Proof.
  unfold parse_args, acceptable, namespace_of.
  rewrite !choice_spec, !int_option_spec.
  destruct (cl_input cl) as [input|]; [|reflexivity].
  destruct (cl_to_png cl && cl_to_svg cl)%bool; [reflexivity|].
  cbn [negb andb value].
  destruct (given_in (keys EC_LEVELS) (cl_level cl)); [|reflexivity].
  destruct (given_int (cl_box_size cl)); [|reflexivity].
  destruct (given_int (cl_border cl)); [|reflexivity].
  destruct (given_in svg_styles (cl_svg_style cl)); reflexivity.
Qed.


(** X12: what the parser returns carries the command line unchanged:
    the input, the two flags, the output path and the ASCII flag as
    given, a given level or style as given, a given module size or border
    as converted; and it always holds a level that is a key of
    [EC_LEVELS], a style among the three, and at most one format flag. *)
Theorem parse_args_passes_values {P : PyInt} (cl : CommandLine) (args : Args.t) :
  parse_args cl = ret args ->
  cl_input cl = Some (Args.input args) /\
  Args.to_png args = cl_to_png cl /\ Args.to_svg args = cl_to_svg cl /\
  Args.out args = cl_out cl /\ Args.ascii args = cl_ascii cl /\
  (forall v, cl_level cl = Some v -> Args.level args = v) /\
  (forall v, cl_svg_style cl = Some v -> Args.svg_style args = v) /\
  (forall v, cl_box_size cl = Some v -> int v = Some (Args.box_size args)) /\
  (forall v, cl_border cl = Some v -> int v = Some (Args.border args)) /\
  In (Args.level args) (keys EC_LEVELS) /\
  In (Args.svg_style args) svg_styles /\
  (Args.to_png args && Args.to_svg args)%bool = false.
Proof.
  rewrite parse_args_spec. destruct (acceptable cl) eqn:Hacc; [|discriminate].
  intros [= <-]. unfold acceptable in Hacc.
  repeat (apply andb_true_iff in Hacc; destruct Hacc as [Hacc ?]).
  unfold namespace_of.
  cbn [Args.input Args.to_png Args.to_svg Args.out Args.level Args.box_size
       Args.border Args.ascii Args.svg_style].
  destruct (cl_input cl) as [input|]; [|discriminate].
  split; [reflexivity|]. do 4 (split; [reflexivity|]).
  split; [now intros v ->|]. split; [now intros v ->|].
  split; [|split; [|split; [|split]]].
  - intros v Hv. rewrite Hv in *. cbn [given_int] in *. now destruct (int v).
  - intros v Hv. rewrite Hv in *. cbn [given_int] in *. now destruct (int v).
  - destruct (cl_level cl) as [v|]; cbn [given_in] in *;
      [apply contains_In; assumption | simpl; tauto].
  - destruct (cl_svg_style cl) as [v|]; cbn [given_in] in *;
      [apply contains_In; assumption | simpl; tauto].
  - now apply negb_true_iff.
Qed.

Lemma parse_args_passes_values_witness :
  parse_args (P := digits_int) (svg_at_q (lit "a b")) =
    ret (Args.mk (lit "a b") false true None (lit "Q") 12%Z 4%Z false (lit "path")) /\
  In (lit "Q") (keys EC_LEVELS).
Proof.
  split; [reflexivity|].
  exact (proj1 (proj2 (proj2 (proj2 (proj2 (proj2 (proj2 (proj2 (proj2 (proj2
           (parse_args_passes_values (P := digits_int) (svg_at_q (lit "a b"))
              (Args.mk (lit "a b") false true None (lit "Q") 12%Z 4%Z false
                       (lit "path"))
              eq_refl))))))))))).
Defined.

(** ** The whole run *)



Section Run.
Context {U : UnicodeData} {Q : QRCodeLib} {P : PyInt}.

(** X13: when [main] returns, it returns 0, and the one write it has
    made went to the resolved target: to the file [output_file] when
    [to_file] is set and to the output stream otherwise; it wrote bytes
    for the raster format and text for the two others. *)
Theorem main_writes_resolved_target (cl : CommandLine) (args : Args.t)
    (w : Effect) (code : Z) :
  parse_args cl = ret args -> main cl = ret (w, code) ->
  code = 0%Z /\
  destination w = resolve_target args /\
  binary w = match format_of args with Raster => true | _ => false end.
Proof.
  intros Hp. unfold main. rewrite Hp. cbn [bind ret].
  destruct (build_qr _ _ _ _) as [e|qr]; [discriminate|]. cbn [bind].
  unfold resolve_target, format_of.
  destruct (output_target args) as [output_file to_file].
  destruct (Args.to_png args).
  - destruct (emit_png qr) as [e|payload]; [discriminate|]. cbn [bind ret].
    intros [= <- <-]. now destruct to_file.
  - destruct (Args.to_svg args).
    + destruct (emit_svg qr _) as [e|svg]; [discriminate|]. cbn [bind ret].
      intros [= <- <-]. now destruct to_file.
    + cbn [ret]. intros [= <- <-]. now destruct to_file.
Qed.


End Run.

Lemma main_writes_resolved_target_witness :
  main (U := ascii_only) (Q := plain_lib) (P := digits_int)
       (svg_at_q (lit "a b")) =
    ret (FileText (lit "a-b.svg") (lit "SvgPathImage"), 0%Z) /\
  File (lit "a-b.svg") =
    resolve_target (U := ascii_only)
      (namespace_of (P := digits_int) (svg_at_q (lit "a b"))).
Proof.
  split; [reflexivity|].
  exact (proj1 (proj2
    (main_writes_resolved_target
       (U := ascii_only) (Q := plain_lib) (P := digits_int)
       (svg_at_q (lit "a b"))
       (namespace_of (P := digits_int) (svg_at_q (lit "a b")))
       (FileText (lit "a-b.svg") (lit "SvgPathImage")) 0%Z
       eq_refl eq_refl))).
Defined.

